(** * DBMS_ASSERT (orafce, src/assert.c): a shallow embedding of the
    identifier parser, the simple-name check, the dispatchers and the
    literal quoting, with their properties. *)

From Stdlib Require Import List Ascii String ZArith Bool Lia.
Import ListNotations.
Open Scope list_scope.

(** ** Characters and C library predicates *)

(** Bytes of a PostgreSQL [text] value. *)
Definition bytes := list ascii.

Definition NUL : ascii := "000"%char.
Definition DQ : ascii := "034"%char.   (* the double quote character *)
Definition SQ : ascii := "'"%char.
Definition BSLASH : ascii := "092"%char.
Definition DOT : ascii := "."%char.
Definition UNDERSCORE : ascii := "_"%char.

Definition between (lo hi : nat) (c : ascii) : bool :=
  (lo <=? nat_of_ascii c) && (nat_of_ascii c <=? hi).

(** [isspace] of the C locale: space, \t, \n, \v, \f, \r. *)
Definition isspace (c : ascii) : bool :=
  (nat_of_ascii c =? 32) || between 9 13 c.

(** [isalnum] of the C locale: ASCII digits and letters only. *)
Definition isalnum (c : ascii) : bool :=
  between 48 57 c || between 65 90 c || between 97 122 c.

(** [text_to_cstring]: the C string the parser sees ends at the first NUL. *)
Fixpoint text_to_cstring (s : bytes) : bytes :=
  match s with
  | [] => []
  | c :: s' => if (c =? NUL)%char then [] else c :: text_to_cstring s'
  end.

(** ** ParseIdentifierString (assert.c, lines 50-121)

    The C string is a list of bytes; its end (the terminating NUL) is the
    end of the list.  The C function only returns a boolean; the model
    also records each part it delimits, [curname] up to [endp] after the
    quote-quote pairs have been collapsed, with whether it was quoted. *)

Record NamePart := mkNamePart { text : bytes; wasQuoted : bool }.

(** The loop [while (isspace( *nextp)) nextp++;]. *)
Fixpoint skip_ws (s : bytes) : bytes :=
  match s with
  | [] => []
  | c :: s' => if isspace c then skip_ws s' else s
  end.

(** The quoted branch, started right after the opening quote: [strchr]
    finds the next quote; if the byte after it is also a quote, the
    [memmove] drops the first of the two and the search resumes after the
    second; otherwise the quote found terminates the name.  Returns the
    collapsed name and the input after the terminating quote; [None] when
    [strchr] finds no quote (mismatched quotes). *)
Fixpoint scan_quoted (s : bytes) : option (bytes * bytes) :=
  match s with
  | [] => None
  | c :: s' =>
      if (c =? DQ)%char then
        match s' with
        | c' :: s'' =>
            if (c' =? DQ)%char then
              option_map (fun '(n, r) => (DQ :: n, r)) (scan_quoted s'')
            else Some ([], s')
        | [] => Some ([], s')
        end
      else option_map (fun '(n, r) => (c :: n, r)) (scan_quoted s')
  end.

(** The unquoted branch: extends to [.], whitespace or the end; any other
    byte that is neither alphanumeric nor [_] makes the parse fail. *)
Fixpoint scan_unquoted (s : bytes) : option (bytes * bytes) :=
  match s with
  | [] => Some ([], [])
  | c :: s' =>
      if (c =? DOT)%char || isspace c then Some ([], s)
      else if negb (isalnum c) && negb (c =? UNDERSCORE)%char then None
      else option_map (fun '(n, r) => (c :: n, r)) (scan_unquoted s')
  end.

(** One identifier, at the top of the do-while loop. *)
Definition scan_part (s : bytes) : option (NamePart * bytes) :=
  match s with
  | c :: s' =>
      if (c =? DQ)%char then
        option_map (fun '(n, r) => (mkNamePart n true, r)) (scan_quoted s')
      else
        match scan_unquoted s with
        | Some ([], _) => None          (* empty unquoted name not allowed *)
        | Some (n, r) => Some (mkNamePart n false, r)
        | None => None
        end
  | [] => None                          (* unquoted name of length zero *)
  end.

(** The do-while loop.  Every iteration that loops back has consumed at
    least one byte, so [S (List.length s)] iterations are enough (see
    [parse_loop_fuel] below). *)
Fixpoint parse_loop (fuel : nat) (s : bytes) : option (list NamePart) :=
  match fuel with
  | O => None
  | S fuel' =>
      match scan_part s with
      | None => None
      | Some (p, r) =>
          match skip_ws r with
          | [] => Some [p]                                   (* done *)
          | c :: r' =>
              if (c =? DOT)%char then
                option_map (cons p) (parse_loop fuel' (skip_ws r'))
              else None                                      (* invalid syntax *)
          end
      end
  end.

Definition ParseIdentifierParts (raw : bytes) : option (list NamePart) :=
  match skip_ws raw with
  | [] => Some []                       (* allow empty string *)
  | s => parse_loop (S (List.length s)) s
  end.

Definition ParseIdentifierString (raw : bytes) : bool :=
  match ParseIdentifierParts raw with Some _ => true | None => false end.

(** ** check_sql_name (assert.c, lines 286-316)

    [cp] is the rest of the buffer from the current position, [len] the
    C [int].  Reading [*cp] where no byte of the [len]-byte buffer is left
    is a read past its end, the result [None]. *)

(** The quoted branch, with [DQ] the double quote character:
    [for (cp++, len -= 2; len-- > 0; cp++) { if ( *cp == DQ) {
       if (len-- == 0) return false; if ( *cp != DQ) return false; } }
     if ( *cp != DQ) return false; return true;]
    The second test reads [*cp] again, the same byte as the first. *)
Fixpoint check_quoted_loop (cp : bytes) (len : Z) : option bool :=
  if (0 <? len)%Z then
    let len := (len - 1)%Z in
    match cp with
    | [] => None
    | c :: cp' =>
        if (c =? DQ)%char then
          if (len =? 0)%Z then Some false
          else
            let len := (len - 1)%Z in
            if negb (c =? DQ)%char then Some false
            else check_quoted_loop cp' len
        else check_quoted_loop cp' len
    end
  else
    match cp with
    | [] => None
    | c :: _ => Some (c =? DQ)%char
    end.

(** The unquoted branch:
    [for (; len-- > 0; cp++) if (!isalnum( *cp) && *cp != UNDERSCORE) return false;] *)
Fixpoint check_unquoted_loop (cp : bytes) (len : Z) : option bool :=
  if (0 <? len)%Z then
    match cp with
    | [] => None
    | c :: cp' =>
        if negb (isalnum c) && negb (c =? UNDERSCORE)%char then Some false
        else check_unquoted_loop cp' (len - 1)
    end
  else Some true.

Definition check_sql_name (cp : bytes) (len : Z) : option bool :=
  match cp with
  | [] => None
  | c :: cp' =>
      if (c =? DQ)%char then check_quoted_loop cp' (len - 2)
      else check_unquoted_loop cp len
  end.

(** ** The dispatchers (assert.c, lines 206-379) *)

Inductive ErrorKind :=
  | InvalidSchemaName
  | InvalidObjectName
  | NotSimpleSqlName
  | NotQualifiedSqlName.

(** What a call does: return a value, raise one of the package's
    exceptions, raise an error of the host (such as its name syntax
    error), or read past the end of the argument's buffer. *)
Inductive Outcome :=
  | Accepted (v : bytes)
  | Rejected (e : ErrorKind)
  | HostError
  | ReadPastEnd.

(** [EMPTY_STR]: [VARSIZE(str) - VARHDRSZ == 0]. *)
Definition EMPTY_STR (s : bytes) : bool := Nat.eqb (List.length s) 0.

(** SQL arguments may be NULL: [None] is [PG_ARGISNULL(0)]. *)
Definition dbms_assert_qualified_sql_name (arg : option bytes) : Outcome :=
  match arg with
  | None => Rejected NotQualifiedSqlName
  | Some qname =>
      if EMPTY_STR qname then Rejected NotQualifiedSqlName
      else if negb (ParseIdentifierString (text_to_cstring qname))
      then Rejected NotQualifiedSqlName
      else Accepted qname
  end.

Definition dbms_assert_simple_sql_name (arg : option bytes) : Outcome :=
  match arg with
  | None => Rejected NotSimpleSqlName
  | Some sname =>
      if EMPTY_STR sname then Rejected NotSimpleSqlName
      else
        let len := Z.of_nat (List.length sname) in
        match check_sql_name sname len with
        | None => ReadPastEnd
        | Some false => Rejected NotSimpleSqlName
        | Some true => Accepted sname
        end
  end.

(** The schema and object checks call the host's catalog; its services
    are the variables of this section. *)
Section Catalog.

(** [stringToQualifiedNameList]: [None] when it raises its own
    "invalid name syntax" error. *)
Variable stringToQualifiedNameList : bytes -> option (list bytes).
(** [GetSysCacheOid(NAMESPACENAME, ...)]: [None] is [InvalidOid]. *)
Variable namespace_oid : bytes -> option nat.
(** [pg_namespace_aclcheck(oid, GetUserId(), ACL_USAGE) == ACLCHECK_OK]. *)
Variable namespace_usage_ok : nat -> bool.
(** [RangeVarGetRelid(makeRangeVarFromNameList(names), true)]: [None]
    when it raises an error, [Some None] for [InvalidOid]. *)
Variable relation_oid : list bytes -> option (option nat).

Definition dbms_assert_schema_name (arg : option bytes) : Outcome :=
  match arg with
  | None => Rejected InvalidSchemaName
  | Some sname =>
      if EMPTY_STR sname then Rejected InvalidSchemaName
      else
        match stringToQualifiedNameList (text_to_cstring sname) with
        | None => HostError
        | Some [nsp] =>
            match namespace_oid nsp with
            | None => Rejected InvalidSchemaName
            | Some oid =>
                if namespace_usage_ok oid then Accepted sname
                else Rejected InvalidSchemaName
            end
        | Some _ => Rejected InvalidSchemaName
        end
  end.

Definition dbms_assert_object_name (arg : option bytes) : Outcome :=
  match arg with
  | None => Rejected InvalidObjectName
  | Some str =>
      if EMPTY_STR str then Rejected InvalidObjectName
      else
        match stringToQualifiedNameList (text_to_cstring str) with
        | None => HostError
        | Some names =>
            match relation_oid names with
            | None => HostError
            | Some None => Rejected InvalidObjectName
            | Some (Some _) => Accepted str
            end
        end
  end.

End Catalog.

(** ** ENQUOTE_LITERAL (assert.c, lines 137-141)

    [dbms_assert_enquote_literal] is [DirectFunctionCall1(quote_literal, ...)].
    [quote_literal] is the host's (PostgreSQL, utils/adt/quote.c,
    [quote_literal_internal]): an [E] prefix when the value contains a
    backslash, then the value between single quotes with each single
    quote and each backslash written twice ([SQL_STR_DOUBLE(c, true)]). *)

Fixpoint quote_literal_body (s : bytes) : bytes :=
  match s with
  | [] => []
  | c :: s' =>
      if (c =? SQ)%char || (c =? BSLASH)%char then c :: c :: quote_literal_body s'
      else c :: quote_literal_body s'
  end.

Definition quote_literal (s : bytes) : bytes :=
  (if existsb (fun c => (c =? BSLASH)%char) s then ["E"%char] else [])
    ++ [SQ] ++ quote_literal_body s ++ [SQ].

Definition dbms_assert_enquote_literal (s : bytes) : bytes := quote_literal s.

(** Byte lists written as Rocq strings. *)
Definition b (s : string) : bytes := list_ascii_of_string s.

(** ** Readings of the spec's words, to compare the code with *)

(** Each [q] of [s] is one of an adjacent pair [q q]. *)
Fixpoint paired (q : ascii) (s : bytes) : bool :=
  match s with
  | [] => true
  | c :: s' =>
      if (c =? q)%char then
        match s' with
        | c' :: s'' => (c' =? q)%char && paired q s''
        | [] => false
        end
      else paired q s'
  end.

(** The spec's well-formed quoted simple name: at least two bytes, a
    double quote at each end, and the double quotes between them paired. *)
Definition spec_quoted_name_ok (s : bytes) : bool :=
  (2 <=? List.length s) && (hd NUL s =? DQ)%char
  && (last s NUL =? DQ)%char && paired DQ (removelast (tl s)).

(** A byte an unquoted name may contain. *)
Definition ident_char (c : ascii) : bool :=
  isalnum c || (c =? UNDERSCORE)%char.

(** The spec's literal quoting: single quotes doubled, nothing else. *)
Fixpoint spec_double_quotes (s : bytes) : bytes :=
  match s with
  | [] => []
  | c :: s' => if (c =? SQ)%char then c :: c :: spec_double_quotes s'
               else c :: spec_double_quotes s'
  end.

Definition spec_enquote_literal (s : bytes) : bytes :=
  [SQ] ++ spec_double_quotes s ++ [SQ].

(** Reading a [quote_literal] body back: each doubled single quote or
    backslash stands for one. *)
Fixpoint undouble (s : bytes) : bytes :=
  match s with
  | c :: ((c' :: s'') as s') =>
      if ((c =? SQ)%char || (c =? BSLASH)%char) && (c' =? c)%char
      then c :: undouble s''
      else c :: undouble s'
  | _ => s
  end.

Definition no_nul (s : bytes) : bool := forallb (fun c => negb (c =? NUL)%char) s.

(** Writing name parts back as text: a quoted part between double quotes
    with each of its double quotes doubled, an unquoted part as it is,
    the parts separated by dots. *)
Fixpoint dq_escape (n : bytes) : bytes :=
  match n with
  | [] => []
  | c :: n' => if (c =? DQ)%char then DQ :: DQ :: dq_escape n' else c :: dq_escape n'
  end.

Definition render_part (p : NamePart) : bytes :=
  if wasQuoted p then DQ :: dq_escape (text p) ++ [DQ] else text p.

Fixpoint render_join (ps : list NamePart) : bytes :=
  match ps with
  | [] => []
  | [p] => render_part p
  | p :: ps' => render_part p ++ DOT :: render_join ps'
  end.

(** A part the parser can produce: an unquoted part is non-empty and made
    of letters, digits and underscores. *)
Definition part_ok (p : NamePart) : bool :=
  wasQuoted p || (negb (Nat.eqb (List.length (text p)) 0) && forallb ident_char (text p)).

(** ** Lemmas on the scanners *)

Lemma text_to_cstring_no_nul : forall s, no_nul s = true -> text_to_cstring s = s.
Proof.
  induction s as [|c s IH]; simpl; intros H; [reflexivity|].
  apply andb_prop in H as [H1 H2].
  destruct (c =? NUL)%char; [discriminate|]. now rewrite IH.
Qed.

Lemma text_to_cstring_app : forall s r,
  no_nul s = true -> text_to_cstring (s ++ r) = s ++ text_to_cstring r.
Proof.
  induction s as [|c s IH]; simpl; intros r H; [reflexivity|].
  apply andb_prop in H as [H1 H2].
  destruct (c =? NUL)%char; [discriminate|]. now rewrite IH.
Qed.

Lemma skip_ws_app_dot : forall s r,
  skip_ws (s ++ DOT :: r) = skip_ws s ++ DOT :: r.
Proof.
  induction s as [|c s IH]; intros r; simpl; [reflexivity|].
  destruct (isspace c); [apply IH|reflexivity].
Qed.

Lemma skip_ws_length : forall s, List.length (skip_ws s) <= List.length s.
Proof.
  induction s as [|c s IH]; simpl; [lia|]. destruct (isspace c); simpl; lia.
Qed.

Lemma skip_ws_all_space : forall s, forallb isspace s = true -> skip_ws s = [].
Proof.
  induction s as [|c s IH]; simpl; intros H; [reflexivity|].
  apply andb_prop in H as [H1 H2]. rewrite H1. now apply IH.
Qed.

Lemma scan_unquoted_app : forall s n r,
  scan_unquoted s = Some (n, r) -> n ++ r = s.
Proof.
  induction s as [|c s IH]; simpl; intros n r H.
  - now inversion H.
  - destruct ((c =? DOT)%char || isspace c); [now inversion H|].
    destruct (negb (isalnum c) && negb (c =? UNDERSCORE)%char); [discriminate|].
    destruct (scan_unquoted s) as [[n' r']|] eqn:E; [|discriminate].
    inversion H; subst. simpl. f_equal. now apply IH.
Qed.

Lemma scan_unquoted_ident : forall s n r,
  scan_unquoted s = Some (n, r) -> forallb ident_char n = true.
Proof.
  induction s as [|c s IH]; simpl; intros n r H.
  - now inversion H.
  - destruct ((c =? DOT)%char || isspace c); [now inversion H|].
    destruct (negb (isalnum c) && negb (c =? UNDERSCORE)%char) eqn:Ec; [discriminate|].
    destruct (scan_unquoted s) as [[n' r']|] eqn:E; [|discriminate].
    inversion H; subst. simpl. rewrite (IH _ _ eq_refl), andb_true_r.
    unfold ident_char. destruct (isalnum c), (c =? UNDERSCORE)%char; easy.
Qed.

Lemma scan_unquoted_app_dot : forall s n rest r,
  scan_unquoted s = Some (n, rest) ->
  scan_unquoted (s ++ DOT :: r) = Some (n, rest ++ DOT :: r).
Proof.
  induction s as [|c s IH]; simpl; intros n rest r H.
  - now inversion H.
  - destruct ((c =? DOT)%char || isspace c); [now inversion H|].
    destruct (negb (isalnum c) && negb (c =? UNDERSCORE)%char); [discriminate|].
    destruct (scan_unquoted s) as [[n' r']|] eqn:E; [|discriminate].
    inversion H; subst. now rewrite (IH _ _ r eq_refl).
Qed.

Lemma scan_quoted_app_dot : forall k s n rest r,
  List.length s <= k ->
  scan_quoted s = Some (n, rest) ->
  scan_quoted (s ++ DOT :: r) = Some (n, rest ++ DOT :: r).
Proof.
  induction k as [|k IH]; intros s n rest r Hk H.
  - destruct s; [discriminate|simpl in Hk; lia].
  - destruct s as [|c s]; [discriminate|]. simpl in Hk |- *. simpl in H.
    destruct (c =? DQ)%char.
    + destruct s as [|c' s''].
      * inversion H; subst. reflexivity.
      * simpl in Hk |- *. destruct (c' =? DQ)%char.
        -- destruct (scan_quoted s'') as [[n' r']|] eqn:E; [|discriminate].
           simpl in H. injection H as <- <-.
           rewrite (IH s'' n' r' r ltac:(lia) E). reflexivity.
        -- inversion H; subst. reflexivity.
    + destruct (scan_quoted s) as [[n' r']|] eqn:E; [|discriminate].
      simpl in H. injection H as <- <-.
      rewrite (IH s n' r' r ltac:(lia) E). reflexivity.
Qed.

Lemma scan_quoted_shorter : forall k s n rest,
  List.length s <= k ->
  scan_quoted s = Some (n, rest) -> List.length rest < List.length s.
Proof.
  induction k as [|k IH]; intros s n rest Hk H.
  - destruct s; [discriminate|simpl in Hk; lia].
  - destruct s as [|c s]; [discriminate|]. simpl in Hk, H |- *.
    destruct (c =? DQ)%char.
    + destruct s as [|c' s''].
      * inversion H; subst. simpl. lia.
      * simpl in Hk |- *. destruct (c' =? DQ)%char.
        -- destruct (scan_quoted s'') as [[n' r']|] eqn:E; [|discriminate].
           inversion H; subst. pose proof (IH s'' n' rest ltac:(lia) E). lia.
        -- inversion H; subst. simpl. lia.
    + destruct (scan_quoted s) as [[n' r']|] eqn:E; [|discriminate].
      inversion H; subst. pose proof (IH s n' rest ltac:(lia) E). lia.
Qed.

Lemma scan_part_app_dot : forall s p rest r,
  scan_part s = Some (p, rest) ->
  scan_part (s ++ DOT :: r) = Some (p, rest ++ DOT :: r).
Proof.
  intros [|c s] p rest r H; [discriminate|].
  unfold scan_part in H |- *. cbn [app]. destruct (c =? DQ)%char eqn:Ec.
  - destruct (scan_quoted s) as [[n r']|] eqn:E; [|discriminate].
    simpl in H. injection H as <- <-.
    rewrite (scan_quoted_app_dot (List.length s) s n r' r (le_n _) E). reflexivity.
  - destruct (scan_unquoted (c :: s)) as [[n r']|] eqn:E; [|discriminate].
    pose proof (scan_unquoted_app_dot (c :: s) n r' r E) as E'.
    cbn [app] in E'. rewrite E'. destruct n; [discriminate|].
    inversion H; subst. reflexivity.
Qed.

Lemma scan_part_shorter : forall s p rest,
  scan_part s = Some (p, rest) -> List.length rest < List.length s.
Proof.
  intros [|c s] p rest H; [discriminate|].
  unfold scan_part in H. destruct (c =? DQ)%char.
  - destruct (scan_quoted s) as [[n r']|] eqn:E; [|discriminate].
    simpl in H. injection H as <- <-.
    pose proof (scan_quoted_shorter _ s n r' (le_n _) E). simpl. lia.
  - destruct (scan_unquoted (c :: s)) as [[n r']|] eqn:E; [|discriminate].
    apply scan_unquoted_app in E.
    destruct n as [|c' n]; [discriminate|]. inversion H; subst.
    rewrite <- E. rewrite length_app. simpl. lia.
Qed.

Lemma scan_part_unquoted : forall s p rest,
  scan_part s = Some (p, rest) -> wasQuoted p = false ->
  text p <> [] /\ forallb ident_char (text p) = true.
Proof.
  intros [|c s] p rest H Hq; [discriminate|].
  unfold scan_part in H. destruct (c =? DQ)%char.
  - destruct (scan_quoted s) as [[n r']|]; [|discriminate].
    inversion H; subst. discriminate.
  - destruct (scan_unquoted (c :: s)) as [[n r']|] eqn:E; [|discriminate].
    destruct n as [|c' n]; [discriminate|]. inversion H; subst. simpl.
    split; [discriminate|]. exact (scan_unquoted_ident _ _ _ E).
Qed.

(** ** The loop *)

(** Fuel beyond the length of the input does not change the result. *)
Lemma parse_loop_fuel : forall n m s,
  List.length s < n -> List.length s < m -> parse_loop n s = parse_loop m s.
Proof.
  induction n as [|n IH]; intros m s Hn Hm; [lia|].
  destruct m as [|m]; [lia|]. simpl.
  destruct (scan_part s) as [[p r]|] eqn:E; [|reflexivity].
  pose proof (scan_part_shorter _ _ _ E) as Hr.
  destruct (skip_ws r) as [|c r'] eqn:Ew; [reflexivity|].
  destruct (c =? DOT)%char; [|reflexivity].
  pose proof (skip_ws_length r) as L1. rewrite Ew in L1. simpl in L1.
  pose proof (skip_ws_length r') as L2.
  rewrite (IH m); [reflexivity| lia | lia].
Qed.

(** Every part of a successful parse that is not quoted is non-empty and
    made of letters, digits and underscores. *)
Lemma parse_loop_unquoted : forall n s ps,
  parse_loop n s = Some ps ->
  Forall (fun p => wasQuoted p = false ->
                   text p <> [] /\ forallb ident_char (text p) = true) ps.
Proof.
  induction n as [|n IH]; intros s ps H; [discriminate|].
  simpl in H. destruct (scan_part s) as [[p r]|] eqn:E; [|discriminate].
  pose proof (scan_part_unquoted _ _ _ E) as Hp.
  destruct (skip_ws r) as [|c r']; [inversion H; subst; now constructor|].
  destruct (c =? DOT)%char; [|discriminate].
  destruct (parse_loop n (skip_ws r')) as [ps'|] eqn:E'; [|discriminate].
  inversion H; subst. constructor; [exact Hp|exact (IH _ _ E')].
Qed.

(** After a complete qualified name, a dot followed by nothing or by
    another dot (whitespace allowed around) makes the loop fail. *)
Definition bad_tail (r : bytes) : Prop :=
  match skip_ws r with [] => True | c :: _ => c = DOT end.

Lemma parse_loop_bad_tail : forall m r, bad_tail r -> parse_loop m (skip_ws r) = None.
Proof.
  intros [|m] r H; [reflexivity|]. unfold bad_tail in H. simpl.
  destruct (skip_ws r) as [|c r'] eqn:E; [reflexivity|]. subst c.
  reflexivity.
Qed.

Lemma parse_loop_app_dot : forall n s ps r,
  parse_loop n s = Some ps -> bad_tail r ->
  forall m, parse_loop m (s ++ DOT :: r) = None.
Proof.
  induction n as [|n IH]; intros s ps r H Hr m; [discriminate|].
  destruct m as [|m]; [reflexivity|].
  simpl in H |- *. destruct (scan_part s) as [[p rest]|] eqn:E; [|discriminate].
  rewrite (scan_part_app_dot _ _ _ r E), skip_ws_app_dot.
  destruct (skip_ws rest) as [|c r'] eqn:Ew.
  - simpl. rewrite (parse_loop_bad_tail m r Hr). reflexivity.
  - simpl. destruct (c =? DOT)%char; [|discriminate].
    destruct (parse_loop n (skip_ws r')) as [ps'|] eqn:E'; [|discriminate].
    rewrite skip_ws_app_dot, (IH _ _ r E' Hr m). reflexivity.
Qed.

Lemma space_no_nul : forall w, forallb isspace w = true -> no_nul w = true.
Proof.
  induction w as [|c w IH]; simpl; intros H; [reflexivity|].
  apply andb_prop in H as [H1 H2]. rewrite (IH H2), andb_true_r.
  destruct (Ascii.eqb_spec c NUL); [subst; discriminate|reflexivity].
Qed.

(** A complete qualified name followed by a dot and a bad tail is
    rejected by the parser. *)
Lemma parse_app_dot_fails : forall p ps r,
  ParseIdentifierParts p = Some ps -> bad_tail r ->
  ParseIdentifierParts (p ++ DOT :: r) = None.
Proof.
  intros p ps r H Hr. unfold ParseIdentifierParts in *.
  rewrite skip_ws_app_dot. destruct (skip_ws p) as [|c s] eqn:E.
  - reflexivity.
  - exact (parse_loop_app_dot _ (c :: s) ps r H Hr _).
Qed.

(** ** Lemmas on check_sql_name *)

Lemma check_unquoted_loop_all : forall cp,
  check_unquoted_loop cp (Z.of_nat (List.length cp)) = Some (forallb ident_char cp).
Proof.
  induction cp as [|c cp IH]; [reflexivity|].
  cbn [check_unquoted_loop List.length forallb].
  replace (0 <? Z.of_nat (S (List.length cp)))%Z with true by (symmetry; apply Z.ltb_lt; lia).
  replace (Z.of_nat (S (List.length cp)) - 1)%Z with (Z.of_nat (List.length cp)) by lia.
  rewrite IH. unfold ident_char.
  destruct (isalnum c), (c =? UNDERSCORE)%char; reflexivity.
Qed.

Lemma check_unquoted_loop_in_bounds : forall cp len,
  (len <= Z.of_nat (List.length cp))%Z -> check_unquoted_loop cp len <> None.
Proof.
  induction cp as [|c cp IH]; intros len H; simpl.
  - destruct (0 <? len)%Z eqn:E; [apply Z.ltb_lt in E; simpl in H; lia|discriminate].
  - destruct (0 <? len)%Z; [|discriminate].
    destruct (negb (isalnum c) && negb (c =? UNDERSCORE)%char); [discriminate|].
    apply IH. simpl in H. lia.
Qed.

Lemma check_quoted_loop_in_bounds : forall cp len,
  (0 <= len)%Z -> (len < Z.of_nat (List.length cp))%Z ->
  check_quoted_loop cp len <> None.
Proof.
  induction cp as [|c cp IH]; intros len H0 H; simpl in H |- *; [lia|].
  destruct (0 <? len)%Z eqn:E; [|discriminate].
  apply Z.ltb_lt in E.
  destruct (c =? DQ)%char.
  - destruct (len - 1 =? 0)%Z eqn:E1; [discriminate|].
    apply Z.eqb_neq in E1. simpl. apply IH; lia.
  - apply IH; lia.
Qed.

(** From two bytes on, check_sql_name reads only bytes of its buffer. *)
Lemma check_sql_name_in_bounds : forall s,
  2 <= List.length s -> check_sql_name s (Z.of_nat (List.length s)) <> None.
Proof.
  intros [|c s] H; [simpl in H; lia|]. unfold check_sql_name.
  destruct (c =? DQ)%char.
  - apply check_quoted_loop_in_bounds; cbn [List.length] in *; lia.
  - apply check_unquoted_loop_in_bounds. lia.
Qed.

(** ** Lemmas on quote_literal *)

Lemma undouble_plain : forall c s,
  ((c =? SQ)%char || (c =? BSLASH)%char) = false -> undouble (c :: s) = c :: undouble s.
Proof.
  intros c [|c' s] H; [reflexivity|]. simpl. rewrite H. reflexivity.
Qed.

Lemma quote_literal_body_undouble : forall x, undouble (quote_literal_body x) = x.
Proof.
  induction x as [|c x IH]; [reflexivity|]. simpl.
  destruct ((c =? SQ)%char || (c =? BSLASH)%char) eqn:E.
  - simpl. rewrite E, Ascii.eqb_refl, IH. reflexivity.
  - rewrite undouble_plain by exact E. now rewrite IH.
Qed.

Lemma quote_literal_body_paired : forall x, paired SQ (quote_literal_body x) = true.
Proof.
  induction x as [|c x IH]; [reflexivity|]. simpl.
  destruct (Ascii.eqb_spec c SQ) as [->|Hq]; simpl.
  - rewrite ?Ascii.eqb_refl. exact IH.
  - destruct (Ascii.eqb_spec c BSLASH) as [->|Hb]; simpl.
    + exact IH.
    + destruct (Ascii.eqb_spec c SQ); [contradiction|exact IH].
Qed.

Lemma quote_literal_body_no_backslash : forall x,
  existsb (fun c => (c =? BSLASH)%char) x = false ->
  quote_literal_body x = spec_double_quotes x.
Proof.
  induction x as [|c x IH]; simpl; intros H; [reflexivity|].
  apply orb_false_elim in H as [H1 H2]. rewrite H1, orb_false_r, (IH H2).
  reflexivity.
Qed.

(** ** The claims *)

(** Sample inputs, [DQ] standing for the double quote character:
    [DQ ab DQ DQ cd DQ] (a doubled quote inside) and [DQ ab DQ cd DQ]
    (an unpaired quote inside). *)
Definition doubled_inner : bytes := [DQ] ++ b "ab" ++ [DQ; DQ] ++ b "cd" ++ [DQ].
Definition unpaired_inner : bytes := [DQ] ++ b "ab" ++ [DQ] ++ b "cd" ++ [DQ].

(** C1 (quoted simple names): the name [DQ ab DQ DQ cd DQ], well formed
    by the spec's rule, is rejected by simple_sql_name, because the check
    of the byte after an inner quote re-reads the quote itself and does
    not step over it; [DQ ab DQ cd DQ] is rejected as the spec says. *)
Lemma simple_sql_name_doubled_quote_rejected :
  spec_quoted_name_ok doubled_inner = true
  /\ dbms_assert_simple_sql_name (Some doubled_inner) = Rejected NotSimpleSqlName
  /\ spec_quoted_name_ok unpaired_inner = false
  /\ dbms_assert_simple_sql_name (Some unpaired_inner) = Rejected NotSimpleSqlName.
Proof. vm_compute. repeat split. Qed.

(** C2 (parts of a parsed name), the claim as stated: every part of a
    successful parse has non-empty text.  False: the input [DQ DQ]
    parses to one quoted part of empty text. *)
Lemma parse_empty_quoted_part :
  ~ (forall s ps, ParseIdentifierParts s = Some ps -> Forall (fun p => text p <> []) ps).
Proof.
  intros H.
  specialize (H [DQ; DQ] [mkNamePart [] true] eq_refl).
  inversion H as [|x l Hx]; subst. apply Hx. reflexivity.
Qed.

(** C2 (amended): every unquoted part of a successful parse is non-empty
    and made of ASCII letters, digits and underscores; a quoted part may
    be empty, and the input [DQ DQ] is accepted by the parser and by
    qualified_sql_name. *)
Theorem parse_unquoted_parts_nonempty :
  (forall s ps, ParseIdentifierParts s = Some ps ->
     Forall (fun p => wasQuoted p = false ->
                      text p <> [] /\ forallb ident_char (text p) = true) ps)
  /\ ParseIdentifierParts [DQ; DQ] = Some [mkNamePart [] true]
  /\ dbms_assert_qualified_sql_name (Some [DQ; DQ]) = Accepted [DQ; DQ].
Proof.
  split; [|split; reflexivity].
  intros s ps H. unfold ParseIdentifierParts in H.
  destruct (skip_ws s) as [|c s'].
  - injection H as <-. constructor.
  - exact (parse_loop_unquoted _ _ _ H).
Qed.

(** C3 (unquoted simple names): for an input not starting with a double
    quote, simple_sql_name accepts exactly the non-empty inputs made of
    ASCII letters, digits and underscores, and any other byte makes it
    fail with NotSimpleSqlName. *)
Theorem simple_sql_name_unquoted : forall s,
  hd NUL s <> DQ ->
  (dbms_assert_simple_sql_name (Some s) = Accepted s
     <-> s <> [] /\ forallb ident_char s = true)
  /\ (existsb (fun c => negb (ident_char c)) s = true ->
      dbms_assert_simple_sql_name (Some s) = Rejected NotSimpleSqlName).
Proof.
  intros [|c s] Hhd.
  - split; [split; [discriminate|intros [H _]; now contradiction H]|discriminate].
  - simpl in Hhd. unfold dbms_assert_simple_sql_name, EMPTY_STR.
    cbn [List.length Nat.eqb]. unfold check_sql_name.
    destruct (Ascii.eqb_spec c DQ) as [E|_]; [contradiction|].
    rewrite check_unquoted_loop_all.
    assert (Hex : existsb (fun c => negb (ident_char c)) (c :: s)
                  = negb (forallb ident_char (c :: s))).
    { clear. induction (c :: s) as [|x l IH]; [reflexivity|].
      simpl. rewrite IH. destruct (ident_char x); reflexivity. }
    rewrite Hex.
    destruct (forallb ident_char (c :: s)); split.
    + split; [intros _; split; [discriminate|reflexivity]|reflexivity].
    + discriminate.
    + split; [discriminate|intros [_ H]; discriminate].
    + reflexivity.
Qed.

Lemma simple_sql_name_unquoted_witness :
  hd NUL (b "emp_1") <> DQ
  /\ ((dbms_assert_simple_sql_name (Some (b "emp_1")) = Accepted (b "emp_1")
       <-> b "emp_1" <> [] /\ forallb ident_char (b "emp_1") = true)
      /\ (existsb (fun c => negb (ident_char c)) (b "emp_1") = true ->
          dbms_assert_simple_sql_name (Some (b "emp_1")) = Rejected NotSimpleSqlName)).
Proof.
  assert (H : hd NUL (b "emp_1") <> DQ) by (vm_compute; discriminate).
  split; [exact H | apply (simple_sql_name_unquoted (b "emp_1") H)].
Defined.

(** C4 (copy-through): whatever qualified_sql_name or simple_sql_name
    accepts, it returns unchanged: the value is the argument itself. *)
Theorem accepted_value_is_input : forall x v,
  dbms_assert_qualified_sql_name x = Accepted v
  \/ dbms_assert_simple_sql_name x = Accepted v ->
  x = Some v.
Proof.
  intros [s|] v [H|H]; try discriminate.
  - unfold dbms_assert_qualified_sql_name in H.
    destruct (EMPTY_STR s); [discriminate|].
    destruct (negb (ParseIdentifierString (text_to_cstring s))); [discriminate|].
    now injection H as ->.
  - unfold dbms_assert_simple_sql_name in H.
    destruct (EMPTY_STR s); [discriminate|].
    destruct (check_sql_name s (Z.of_nat (List.length s))) as [[|]|]; try discriminate.
    now injection H as ->.
Qed.

Lemma accepted_value_is_input_witness :
  dbms_assert_simple_sql_name (Some (b "emp_1")) = Accepted (b "emp_1")
  /\ Some (b "emp_1") = Some (b "emp_1").
Proof.
  split; [reflexivity|].
  apply (accepted_value_is_input (Some (b "emp_1")) (b "emp_1")).
  right. reflexivity.
Defined.

(** C5 (qualified parsing): [schema.table] parses to the two unquoted
    parts [schema] and [table]; after any complete qualified name [p], a
    dot followed by another dot ([p..q], whitespace allowed between the
    dots) or by nothing but whitespace ([p.]) is rejected by
    qualified_sql_name with NotQualifiedSqlName. *)
Theorem qualified_dot_segments : forall p w q,
  no_nul p = true -> forallb isspace w = true -> ParseIdentifierString p = true ->
  ParseIdentifierParts (b "schema.table")
    = Some [mkNamePart (b "schema") false; mkNamePart (b "table") false]
  /\ dbms_assert_qualified_sql_name (Some (p ++ DOT :: w ++ DOT :: q))
     = Rejected NotQualifiedSqlName
  /\ dbms_assert_qualified_sql_name (Some (p ++ DOT :: w))
     = Rejected NotQualifiedSqlName.
Proof.
  intros p w q Hp Hw Hparse.
  unfold ParseIdentifierString in Hparse.
  destruct (ParseIdentifierParts p) as [ps|] eqn:Ep; [|discriminate].
  assert (Hne : forall r, EMPTY_STR (p ++ DOT :: r) = false).
  { intros r. unfold EMPTY_STR. rewrite length_app. simpl.
    apply Nat.eqb_neq. lia. }
  assert (Hdw : no_nul (DOT :: w) = true).
  { pose proof (space_no_nul w Hw) as H. unfold no_nul in *. simpl. exact H. }
  split; [reflexivity|split].
  - unfold dbms_assert_qualified_sql_name. rewrite Hne.
    change (DOT :: w ++ DOT :: q) with ((DOT :: w) ++ DOT :: q).
    rewrite (text_to_cstring_app p), (text_to_cstring_app (DOT :: w))
      by assumption.
    unfold ParseIdentifierString.
    rewrite <- app_comm_cons, (parse_app_dot_fails p ps); [reflexivity|exact Ep|].
    change (text_to_cstring (DOT :: q)) with (DOT :: text_to_cstring q).
    unfold bad_tail. rewrite skip_ws_app_dot, (skip_ws_all_space w Hw). reflexivity.
  - unfold dbms_assert_qualified_sql_name. rewrite Hne.
    rewrite (text_to_cstring_app p), (text_to_cstring_no_nul (DOT :: w))
      by assumption.
    unfold ParseIdentifierString.
    rewrite (parse_app_dot_fails p ps); [reflexivity|exact Ep|].
    unfold bad_tail. now rewrite (skip_ws_all_space w Hw).
Qed.

Lemma qualified_dot_segments_witness :
  dbms_assert_qualified_sql_name (Some (b "schema" ++ DOT :: [] ++ DOT :: b "table"))
    = Rejected NotQualifiedSqlName.
Proof.
  apply (qualified_dot_segments (b "schema") [] (b "table"));
    vm_compute; reflexivity.
Defined.

(** C6 (empty string): the parser accepts the empty string with zero
    parts, and qualified_sql_name still rejects it at its emptiness
    guard. *)
Theorem empty_string_parse_and_guard :
  ParseIdentifierParts [] = Some []
  /\ ParseIdentifierString [] = true
  /\ dbms_assert_qualified_sql_name (Some []) = Rejected NotQualifiedSqlName.
Proof. repeat split. Qed.

(** C7 (NULL arguments): each of the four guarded checks, whatever the
    catalog, fails on NULL with its own error kind. *)
Theorem null_input_rejected :
  forall (stringToQualifiedNameList : bytes -> option (list bytes))
         (namespace_oid : bytes -> option nat) (namespace_usage_ok : nat -> bool)
         (relation_oid : list bytes -> option (option nat)),
  dbms_assert_qualified_sql_name None = Rejected NotQualifiedSqlName
  /\ dbms_assert_simple_sql_name None = Rejected NotSimpleSqlName
  /\ dbms_assert_schema_name stringToQualifiedNameList namespace_oid
       namespace_usage_ok None = Rejected InvalidSchemaName
  /\ dbms_assert_object_name stringToQualifiedNameList relation_oid None
       = Rejected InvalidObjectName.
Proof. intros. repeat split. Qed.

(** C8 (enquote_literal), the claim as stated: enquote_literal wraps its
    argument in single quotes and doubles the single quotes, nothing else.
    False for the value [a\b]: the host's quote_literal yields [E'a\\b'],
    which starts with [E] and doubles the backslash. *)
Lemma enquote_literal_backslash :
  ~ (forall x, dbms_assert_enquote_literal x = spec_enquote_literal x)
  /\ hd NUL (dbms_assert_enquote_literal (b "a\b")) <> SQ.
Proof.
  split.
  - intros H. specialize (H (b "a\b")). vm_compute in H. discriminate.
  - vm_compute. discriminate.
Qed.

(** C8 (amended): enquote_literal(x) is [x] between single quotes with
    every single quote and every backslash doubled, prefixed by [E]
    exactly when [x] contains a backslash; so it always ends with a single
    quote, starts with one when [x] has no backslash (and then doubles
    only the single quotes), its body has no unpaired single quote and
    reads back as [x]; enquote_literal of [O'Brien] is ['O''Brien']. *)
Theorem enquote_literal_shape :
  (forall x, exists pre,
     dbms_assert_enquote_literal x = pre ++ [SQ] ++ quote_literal_body x ++ [SQ]
     /\ ((existsb (fun c => (c =? BSLASH)%char) x = false /\ pre = [])
         \/ (existsb (fun c => (c =? BSLASH)%char) x = true /\ pre = ["E"%char]))
     /\ paired SQ (quote_literal_body x) = true
     /\ undouble (quote_literal_body x) = x
     /\ (existsb (fun c => (c =? BSLASH)%char) x = false ->
         dbms_assert_enquote_literal x = spec_enquote_literal x))
  /\ dbms_assert_enquote_literal (b "O'Brien") = b "'O''Brien'".
Proof.
  split; [|reflexivity].
  intros x.
  exists (if existsb (fun c => (c =? BSLASH)%char) x then ["E"%char] else []).
  split; [reflexivity|].
  split; [destruct (existsb (fun c => (c =? BSLASH)%char) x); [right|left]; auto|].
  split; [apply quote_literal_body_paired|].
  split; [apply quote_literal_body_undouble|].
  intros H. unfold dbms_assert_enquote_literal, quote_literal, spec_enquote_literal.
  rewrite H, quote_literal_body_no_backslash by exact H. reflexivity.
Qed.

(** C9 (reads inside the buffer): check_sql_name reads only bytes of its
    buffer when the argument has at least two bytes, but on the one-byte
    argument made of a double quote, where the quoted length becomes -1,
    its final test reads the byte after the buffer; simple_sql_name
    reaches it there. *)
Theorem check_sql_name_single_quote_overread :
  (forall s, 2 <= List.length s -> check_sql_name s (Z.of_nat (List.length s)) <> None)
  /\ check_sql_name [DQ] 1 = None
  /\ dbms_assert_simple_sql_name (Some [DQ]) = ReadPastEnd.
Proof.
  split; [exact check_sql_name_in_bounds|split; reflexivity].
Qed.

(** C10 (whitespace only): a non-empty argument made only of whitespace
    passes the emptiness guard, parses to zero parts, and is returned
    unchanged by qualified_sql_name. *)
Theorem whitespace_only_accepted : forall s,
  s <> [] -> forallb isspace s = true ->
  ParseIdentifierParts (text_to_cstring s) = Some []
  /\ dbms_assert_qualified_sql_name (Some s) = Accepted s.
Proof.
  intros s Hne Hw.
  rewrite (text_to_cstring_no_nul s (space_no_nul s Hw)).
  assert (Hp : ParseIdentifierParts s = Some []).
  { unfold ParseIdentifierParts. now rewrite (skip_ws_all_space s Hw). }
  split; [exact Hp|].
  unfold dbms_assert_qualified_sql_name, EMPTY_STR.
  destruct s as [|c s]; [contradiction|]. cbn [List.length Nat.eqb].
  rewrite (text_to_cstring_no_nul (c :: s) (space_no_nul _ Hw)).
  unfold ParseIdentifierString. rewrite Hp. reflexivity.
Qed.

Lemma whitespace_only_accepted_witness :
  dbms_assert_qualified_sql_name (Some (b " 	 ")) = Accepted (b " 	 ").
Proof.
  apply (whitespace_only_accepted (b " 	 ")); vm_compute; [discriminate|reflexivity].
Defined.

(** ** Further properties of the code *)

Definition no_dq (m : bytes) : bool := forallb (fun c => negb (c =? DQ)%char) m.

(** A run of bytes without double quotes costs the quoted loop one unit
    of [len] per byte. *)
Lemma check_quoted_loop_plain : forall m t k,
  (0 <= k)%Z -> no_dq m = true ->
  check_quoted_loop (m ++ t) (Z.of_nat (List.length m) + k) = check_quoted_loop t k.
Proof.
  induction m as [|c m IH]; intros t k Hk Hm; [reflexivity|].
  unfold no_dq in Hm. cbn [forallb] in Hm. apply andb_prop in Hm as [H1 H2].
  cbn [app check_quoted_loop].
  replace (0 <? Z.of_nat (List.length (c :: m)) + k)%Z with true
    by (symmetry; apply Z.ltb_lt; cbn [List.length]; lia).
  destruct (c =? DQ)%char; [discriminate|].
  replace (Z.of_nat (List.length (c :: m)) + k - 1)%Z
    with (Z.of_nat (List.length m) + k)%Z by (cbn [List.length]; lia).
  exact (IH t k Hk H2).
Qed.

(** simple_sql_name reads past the end of its argument on exactly one
    input, the single double quote; on every other argument it accepts
    it unchanged or fails with NotSimpleSqlName. *)
Theorem simple_sql_name_overread_only_single_quote : forall s,
  (dbms_assert_simple_sql_name (Some s) = ReadPastEnd <-> s = [DQ])
  /\ (s <> [DQ] ->
      dbms_assert_simple_sql_name (Some s) = Accepted s
      \/ dbms_assert_simple_sql_name (Some s) = Rejected NotSimpleSqlName).
Proof.
  intros s.
  destruct s as [|c [|c' s]].
  - split; [split; discriminate|intros _; right; reflexivity].
  - unfold dbms_assert_simple_sql_name, EMPTY_STR, check_sql_name. cbn [List.length Nat.eqb].
    destruct (Ascii.eqb_spec c DQ) as [->|Hc].
    + split; [split; reflexivity|intros H; contradiction H; reflexivity].
    + cbn. destruct (negb (isalnum c) && negb (c =? UNDERSCORE)%char).
      * split; [split; [discriminate|intros H; injection H as ->; contradiction]|].
        intros _; right; reflexivity.
      * split; [split; [discriminate|intros H; injection H as ->; contradiction]|].
        intros _; left; reflexivity.
  - assert (Hin := check_sql_name_in_bounds (c :: c' :: s) ltac:(simpl; lia)).
    unfold dbms_assert_simple_sql_name.
    change (EMPTY_STR (c :: c' :: s)) with false. cbv zeta. cbn iota.
    destruct (check_sql_name (c :: c' :: s) (Z.of_nat (List.length (c :: c' :: s))))
      as [[|]|]; [| |contradiction].
    + split; [split; discriminate|intros _; left; reflexivity].
    + split; [split; discriminate|intros _; right; reflexivity].
Qed.

(** A quoted simple name without double quotes inside is accepted when it
    ends with the closing quote and rejected when that quote is missing. *)
Theorem simple_sql_name_quoted_plain : forall m,
  no_dq m = true ->
  dbms_assert_simple_sql_name (Some (DQ :: m ++ [DQ])) = Accepted (DQ :: m ++ [DQ])
  /\ (m <> [] -> dbms_assert_simple_sql_name (Some (DQ :: m)) = Rejected NotSimpleSqlName).
Proof.
  intros m Hm. split.
  - unfold dbms_assert_simple_sql_name, EMPTY_STR, check_sql_name.
    cbn [List.length Nat.eqb]. rewrite Ascii.eqb_refl.
    replace (Z.of_nat (S (List.length (m ++ [DQ]))) - 2)%Z
      with (Z.of_nat (List.length m) + 0)%Z by (rewrite length_app; cbn [List.length]; lia).
    rewrite (check_quoted_loop_plain m [DQ] 0 ltac:(lia) Hm). reflexivity.
  - intros Hne. destruct (exists_last Hne) as [m' [c ->]].
    unfold no_dq in Hm. rewrite forallb_app in Hm. apply andb_prop in Hm as [Hm' Hc].
    simpl in Hc. rewrite andb_true_r in Hc.
    unfold dbms_assert_simple_sql_name, EMPTY_STR, check_sql_name.
    cbn [List.length Nat.eqb]. rewrite Ascii.eqb_refl.
    replace (Z.of_nat (S (List.length (m' ++ [c]))) - 2)%Z
      with (Z.of_nat (List.length m') + 0)%Z by (rewrite length_app; cbn [List.length]; lia).
    rewrite (check_quoted_loop_plain m' [c] 0 ltac:(lia) Hm'). simpl.
    destruct (c =? DQ)%char; [discriminate|reflexivity].
Qed.

Lemma simple_sql_name_quoted_plain_witness :
  dbms_assert_simple_sql_name (Some (DQ :: b "My Table" ++ [DQ]))
    = Accepted (DQ :: b "My Table" ++ [DQ]).
Proof.
  apply (simple_sql_name_quoted_plain (b "My Table")). reflexivity.
Defined.

(** The other side of the slip of C1: [DQ m DQ DQ c], whatever the byte
    [c] after the doubled quote, is accepted by simple_sql_name although
    it does not end with a double quote (for [c] not a quote). *)
Theorem simple_sql_name_accepts_unclosed : forall m c,
  no_dq m = true ->
  dbms_assert_simple_sql_name (Some (DQ :: m ++ [DQ; DQ; c]))
    = Accepted (DQ :: m ++ [DQ; DQ; c]).
Proof.
  intros m c Hm.
  unfold dbms_assert_simple_sql_name, EMPTY_STR, check_sql_name.
  cbn [List.length Nat.eqb]. rewrite Ascii.eqb_refl.
  replace (Z.of_nat (S (List.length (m ++ [DQ; DQ; c]))) - 2)%Z
    with (Z.of_nat (List.length m) + 2)%Z by (rewrite length_app; cbn [List.length]; lia).
  rewrite (check_quoted_loop_plain m _ 2 ltac:(lia) Hm). reflexivity.
Qed.

Lemma simple_sql_name_accepts_unclosed_witness :
  dbms_assert_simple_sql_name (Some (DQ :: b "ab" ++ [DQ; DQ; "x"%char]))
    = Accepted (DQ :: b "ab" ++ [DQ; DQ; "x"%char]).
Proof.
  apply (simple_sql_name_accepts_unclosed (b "ab") "x"%char). reflexivity.
Defined.


(** enquote_literal is injective: two different values never give the
    same literal. *)
Theorem enquote_literal_injective : forall x y,
  dbms_assert_enquote_literal x = dbms_assert_enquote_literal y -> x = y.
Proof.
  intros x y H. unfold dbms_assert_enquote_literal, quote_literal in H.
  assert (Hb : quote_literal_body x = quote_literal_body y).
  { destruct (existsb (fun c => (c =? BSLASH)%char) x),
             (existsb (fun c => (c =? BSLASH)%char) y);
      simpl in H; try discriminate; injection H as H;
      try injection H as H; apply app_inv_tail in H; exact H. }
  rewrite <- (quote_literal_body_undouble x), <- (quote_literal_body_undouble y), Hb.
  reflexivity.
Qed.

Lemma enquote_literal_injective_witness :
  b "O'Brien" = b "O'Brien".
Proof. apply enquote_literal_injective. reflexivity. Defined.

(** *** Whitespace around a qualified name *)

Lemma skip_ws_app_space : forall s w, forallb isspace w = true ->
  skip_ws (s ++ w) = match skip_ws s with [] => [] | _ => skip_ws s ++ w end.
Proof.
  induction s as [|c s IH]; intros w Hw; simpl.
  - exact (skip_ws_all_space w Hw).
  - destruct (isspace c); [exact (IH w Hw)|reflexivity].
Qed.

Lemma skip_ws_space_app : forall w s, forallb isspace w = true -> skip_ws (w ++ s) = skip_ws s.
Proof.
  induction w as [|c w IH]; intros s Hw; simpl; [reflexivity|].
  apply andb_prop in Hw as [H1 H2]. rewrite H1. exact (IH s H2).
Qed.

Lemma scan_unquoted_app_space : forall s w, forallb isspace w = true ->
  scan_unquoted (s ++ w) = option_map (fun '(n, r) => (n, r ++ w)) (scan_unquoted s).
Proof.
  induction s as [|c s IH]; intros w Hw; simpl.
  - destruct w as [|c w]; [reflexivity|]. simpl in Hw |- *.
    apply andb_prop in Hw as [H1 _]. rewrite H1, orb_true_r. reflexivity.
  - destruct ((c =? DOT)%char || isspace c); [reflexivity|].
    destruct (negb (isalnum c) && negb (c =? UNDERSCORE)%char); [reflexivity|].
    rewrite (IH w Hw). destruct (scan_unquoted s) as [[n r]|]; reflexivity.
Qed.

Lemma scan_quoted_space : forall w, forallb isspace w = true -> scan_quoted w = None.
Proof.
  induction w as [|c w IH]; intros Hw; [reflexivity|]. simpl in Hw |- *.
  apply andb_prop in Hw as [H1 H2].
  destruct (Ascii.eqb_spec c DQ) as [->|_]; [discriminate|].
  rewrite (IH H2). reflexivity.
Qed.

Lemma scan_quoted_app_space : forall k s w,
  List.length s <= k -> forallb isspace w = true ->
  scan_quoted (s ++ w) = option_map (fun '(n, r) => (n, r ++ w)) (scan_quoted s).
Proof.
  induction k as [|k IH]; intros s w Hk Hw.
  - destruct s; [exact (scan_quoted_space w Hw)|simpl in Hk; lia].
  - destruct s as [|c s]; [exact (scan_quoted_space w Hw)|].
    cbn [app scan_quoted]. simpl in Hk.
    destruct (c =? DQ)%char.
    + destruct s as [|c' s''].
      * destruct w as [|c' w]; [reflexivity|]. simpl in Hw.
        apply andb_prop in Hw as [H1 _]. cbn [app].
        destruct (Ascii.eqb_spec c' DQ) as [->|_]; [discriminate|reflexivity].
      * cbn [app]. simpl in Hk. destruct (c' =? DQ)%char; [|reflexivity].
        rewrite (IH s'' w ltac:(lia) Hw).
        destruct (scan_quoted s'') as [[n r]|]; reflexivity.
    + rewrite (IH s w ltac:(lia) Hw).
      destruct (scan_quoted s) as [[n r]|]; reflexivity.
Qed.

Lemma scan_part_app_space : forall s w, forallb isspace w = true ->
  scan_part (s ++ w) = option_map (fun '(p, r) => (p, r ++ w)) (scan_part s).
Proof.
  intros [|c s] w Hw.
  - destruct w as [|c w]; [reflexivity|]. simpl in Hw.
    apply andb_prop in Hw as [H1 _]. unfold scan_part. cbn [app].
    destruct (Ascii.eqb_spec c DQ) as [->|_]; [discriminate|].
    simpl. rewrite H1, orb_true_r. reflexivity.
  - unfold scan_part. cbn [app]. destruct (c =? DQ)%char.
    + rewrite (scan_quoted_app_space _ s w (le_n _) Hw).
      destruct (scan_quoted s) as [[n r]|]; reflexivity.
    + pose proof (scan_unquoted_app_space (c :: s) w Hw) as E. cbn [app] in E.
      rewrite E. destruct (scan_unquoted (c :: s)) as [[[|c' n] r]|]; reflexivity.
Qed.

Lemma parse_loop_app_space : forall n s w, forallb isspace w = true ->
  parse_loop n (s ++ w) = parse_loop n s.
Proof.
  induction n as [|n IH]; intros s w Hw; [reflexivity|]. simpl.
  rewrite (scan_part_app_space s w Hw).
  destruct (scan_part s) as [[p r]|]; [|reflexivity]. simpl.
  rewrite (skip_ws_app_space r w Hw).
  destruct (skip_ws r) as [|c r']; [reflexivity|]. cbn [app].
  destruct (c =? DOT)%char; [|reflexivity].
  rewrite (skip_ws_app_space r' w Hw).
  destruct (skip_ws r') as [|c' r''] eqn:E; [reflexivity|].
  rewrite (IH (c' :: r'') w Hw). reflexivity.
Qed.

(** The parser ignores whitespace before and after the qualified name;
    so does qualified_sql_name on non-empty arguments. *)
Theorem parse_surrounding_whitespace : forall w1 s w2,
  forallb isspace w1 = true -> forallb isspace w2 = true ->
  ParseIdentifierParts (w1 ++ s ++ w2) = ParseIdentifierParts s
  /\ (no_nul s = true -> s <> [] ->
      (dbms_assert_qualified_sql_name (Some (w1 ++ s ++ w2)) = Accepted (w1 ++ s ++ w2)
       <-> dbms_assert_qualified_sql_name (Some s) = Accepted s)).
Proof.
  intros w1 s w2 H1 H2.
  assert (Hp : ParseIdentifierParts (w1 ++ s ++ w2) = ParseIdentifierParts s).
  { unfold ParseIdentifierParts.
    rewrite (skip_ws_space_app w1 _ H1), (skip_ws_app_space s w2 H2).
    destruct (skip_ws s) as [|c r]; [reflexivity|].
    change ((c :: r) ++ w2) with (c :: (r ++ w2)).
    change (parse_loop (S (List.length (c :: r ++ w2))) ((c :: r) ++ w2)
            = parse_loop (S (List.length (c :: r))) (c :: r)).
    rewrite (parse_loop_app_space _ (c :: r) w2 H2).
    apply parse_loop_fuel; cbn [List.length]; rewrite ?length_app; lia. }
  split; [exact Hp|]. intros Hn Hne.
  assert (Hall : no_nul (w1 ++ s ++ w2) = true).
  { pose proof (space_no_nul w1 H1) as N1. pose proof (space_no_nul w2 H2) as N2.
    unfold no_nul in *. rewrite !forallb_app, Hn, N1, N2. reflexivity. }
  unfold dbms_assert_qualified_sql_name.
  rewrite (text_to_cstring_no_nul _ Hall), (text_to_cstring_no_nul _ Hn).
  unfold ParseIdentifierString. rewrite Hp.
  assert (E1 : EMPTY_STR s = false) by (destruct s; [contradiction|reflexivity]).
  assert (E2 : EMPTY_STR (w1 ++ s ++ w2) = false).
  { unfold EMPTY_STR. rewrite !length_app. destruct s; [contradiction|].
    cbn [List.length]. apply Nat.eqb_neq. lia. }
  rewrite E1, E2. destruct (ParseIdentifierParts s); simpl.
  - split; reflexivity.
  - split; discriminate.
Qed.

Lemma parse_surrounding_whitespace_witness :
  ParseIdentifierParts (b "  " ++ b "schema.table" ++ b " ")
    = ParseIdentifierParts (b "schema.table").
Proof. apply (parse_surrounding_whitespace (b "  ") (b "schema.table") (b " ")); reflexivity. Defined.

(** *** Writing parts back and parsing them again *)

Lemma ident_char_not_sep : forall c, ident_char c = true ->
  (c =? DOT)%char = false /\ (c =? DQ)%char = false /\ isspace c = false.
Proof.
  intros c H. destruct c as [[] [] [] [] [] [] [] []];
    vm_compute in H; try discriminate; vm_compute; auto.
Qed.

Lemma scan_quoted_escape : forall n t,
  match t with [] => True | c :: _ => c <> DQ end ->
  scan_quoted (dq_escape n ++ DQ :: t) = Some (n, t).
Proof.
  induction n as [|c n IH]; intros t Ht.
  - cbn [dq_escape app scan_quoted]. rewrite Ascii.eqb_refl.
    destruct t as [|c t]; [reflexivity|].
    destruct (Ascii.eqb_spec c DQ); [contradiction|reflexivity].
  - cbn [dq_escape]. destruct (Ascii.eqb_spec c DQ) as [->|Hc].
    + cbn [app scan_quoted]. rewrite Ascii.eqb_refl. simpl.
      rewrite (IH t Ht). reflexivity.
    + cbn [app scan_quoted].
      destruct (Ascii.eqb_spec c DQ); [contradiction|].
      rewrite (IH t Ht). reflexivity.
Qed.

Lemma scan_unquoted_ident_app : forall n t,
  forallb ident_char n = true ->
  match t with [] => True | c :: _ => c = DOT end ->
  scan_unquoted (n ++ t) = Some (n, t).
Proof.
  induction n as [|c n IH]; intros t Hn Ht.
  - destruct t as [|c t]; [reflexivity|]. subst c. reflexivity.
  - simpl in Hn. apply andb_prop in Hn as [H1 H2].
    destruct (ident_char_not_sep c H1) as (E1 & E2 & E3).
    cbn [app scan_unquoted]. rewrite E1, E3. simpl.
    assert (E4 : negb (isalnum c) && negb (c =? UNDERSCORE)%char = false).
    { unfold ident_char in H1. destruct (isalnum c), (c =? UNDERSCORE)%char; easy. }
    rewrite E4, (IH t H2 Ht). reflexivity.
Qed.

Lemma scan_part_render : forall p t,
  part_ok p = true ->
  match t with [] => True | c :: _ => c = DOT end ->
  scan_part (render_part p ++ t) = Some (p, t).
Proof.
  intros [n q] t Hp Ht. unfold render_part, part_ok in *; simpl in *.
  destruct q.
  - cbn [app scan_part]. unfold scan_part. rewrite Ascii.eqb_refl.
    rewrite <- app_assoc. cbn [app].
    rewrite (scan_quoted_escape n t); [reflexivity|].
    destruct t as [|c t]; [exact I|]. subst c. discriminate.
  - simpl in Hp. apply andb_prop in Hp as [H0 H1].
    destruct n as [|c n]; [discriminate|].
    unfold scan_part. cbn [app].
    destruct (ident_char_not_sep c (proj1 (andb_prop _ _ H1))) as (_ & E2 & _).
    rewrite E2. change (c :: n ++ t) with ((c :: n) ++ t).
    rewrite (scan_unquoted_ident_app (c :: n) t H1 Ht). reflexivity.
Qed.

Lemma skip_ws_render : forall p t,
  part_ok p = true -> skip_ws (render_part p ++ t) = render_part p ++ t.
Proof.
  intros [n q] t Hp. unfold render_part, part_ok in *; simpl in *.
  destruct q; [reflexivity|].
  destruct n as [|c n]; [discriminate|].
  simpl in Hp. apply andb_prop in Hp as [H1 _]. simpl.
  destruct (ident_char_not_sep c H1) as (_ & _ & E3). rewrite E3. reflexivity.
Qed.

Lemma render_part_length : forall p, part_ok p = true -> 1 <= List.length (render_part p).
Proof.
  intros [n q] Hp. unfold render_part, part_ok in *; simpl in *.
  destruct q; simpl; [lia|]. destruct n; [discriminate|simpl; lia].
Qed.

Lemma parse_loop_render : forall ps n,
  ps <> [] -> forallb part_ok ps = true -> List.length (render_join ps) < n ->
  parse_loop n (render_join ps) = Some ps.
Proof.
  induction ps as [|p ps IH]; intros n Hne Hok Hn; [contradiction|].
  simpl in Hok. apply andb_prop in Hok as [Hp Hps].
  destruct n as [|n]; [lia|].
  destruct ps as [|q ps'].
  - simpl. rewrite <- (app_nil_r (render_part p)).
    rewrite (scan_part_render p [] Hp I). reflexivity.
  - change (render_join (p :: q :: ps')) with (render_part p ++ DOT :: render_join (q :: ps')).
    change (render_join (p :: q :: ps')) with (render_part p ++ DOT :: render_join (q :: ps')) in Hn.
    cbn [parse_loop]. rewrite (scan_part_render p (DOT :: render_join (q :: ps')) Hp eq_refl).
    cbn [skip_ws]. change (isspace DOT) with false. cbv iota.
    rewrite Ascii.eqb_refl.
    assert (Hs : skip_ws (render_join (q :: ps')) = render_join (q :: ps')).
    { simpl in Hps. apply andb_prop in Hps as [Hq _].
      destruct ps'; [rewrite <- (app_nil_r (render_part q)) at 1 2|];
        apply skip_ws_render; exact Hq. }
    rewrite Hs, (IH n); [reflexivity|discriminate|exact Hps|].
    rewrite length_app in Hn. cbn [List.length] in Hn. lia.
Qed.

(** Writing a list of parts the parser can produce back as text (quoted
    parts requoted with their double quotes doubled, parts joined by dots)
    and parsing it gives the same list again. *)
Theorem parse_render_roundtrip : forall ps,
  forallb part_ok ps = true -> ParseIdentifierParts (render_join ps) = Some ps.
Proof.
  intros [|p ps] Hok; [reflexivity|].
  unfold ParseIdentifierParts.
  assert (Hs : skip_ws (render_join (p :: ps)) = render_join (p :: ps)).
  { simpl in Hok. apply andb_prop in Hok as [Hp _].
    destruct ps; [rewrite <- (app_nil_r (render_part p)) at 1 2|];
      apply skip_ws_render; exact Hp. }
  rewrite Hs.
  assert (Hl : 1 <= List.length (render_join (p :: ps))).
  { simpl in Hok. apply andb_prop in Hok as [Hp _]. pose proof (render_part_length p Hp).
    destruct ps; simpl; [lia|rewrite length_app; lia]. }
  destruct (render_join (p :: ps)) as [|c r] eqn:E; [simpl in Hl; lia|].
  rewrite <- E. apply parse_loop_render; [discriminate|exact Hok|rewrite E; simpl; lia].
Qed.

Lemma parse_render_roundtrip_witness :
  ParseIdentifierParts (render_join [mkNamePart (b "public") false; mkNamePart (DQ :: b "My Table") true])
    = Some [mkNamePart (b "public") false; mkNamePart (DQ :: b "My Table") true].
Proof. apply parse_render_roundtrip. reflexivity. Defined.
